(** * name_generator: the squad / companion name table generator

    A shallow embedding of [scripts/name_generator.py].  The script reads the
    parsed JSON dump, classifies every element of [data['Entries']] by its
    [Name] and [TypeFullName], accumulates [[guid, name]] pairs in the two
    module-level lists [squads] and [companions], and finally writes the
    Rust source of two lookup functions to [src/data/names.rs].

    Modelling choices:
    - a Python [str] is a [string]; every character of the model stands for
      one code point, which is all that slicing and prefix tests look at;
    - a JSON object is a [gmap] from field names to values, and the consumed
      fields hold strings; subscripting a missing key raises [KeyError];
    - the two global lists are threaded explicitly as a record;
    - exceptions are an error monad; the file system is a [gmap] from paths
      to file contents;
    - the generated function is what a reader of Rust finds in the emitted
      text, not what the entries were meant to say. *)

From Stdlib Require Import Ascii String.
From stdpp Require Import base strings list gmap.

(** ** Python string primitives *)

Module Py.

(** [s[k:]] for a literal [k >= 0]. *)
Fixpoint slice_from (k : nat) (s : string) : string :=
  match k, s with
  | O, _ => s
  | S _, EmptyString => EmptyString
  | S k', String _ s' => slice_from k' s'
  end.

(** [s[:n]] for [n >= 0]. *)
Fixpoint slice_to (n : nat) (s : string) : string :=
  match n, s with
  | O, _ => EmptyString
  | S _, EmptyString => EmptyString
  | S n', String c s' => String c (slice_to n' s')
  end.

(** [s[:-k]] for a literal [k > 0]: the stop index [len(s) - k] is clamped
    at [0], which is what truncated subtraction computes. *)
Definition slice_to_neg (k : nat) (s : string) : string :=
  slice_to (String.length s - k) s.

(** [s.startswith(p)] *)
Definition startswith (s p : string) : bool := String.prefix p s.

(** [s.endswith(p)]: [p] is no longer than [s] and the last [len(p)]
    characters of [s] are [p]. *)
Definition endswith (s p : string) : bool :=
  (String.length p <=? String.length s)%nat
  && String.eqb (slice_from (String.length s - String.length p) s) p.

End Py.

(** ** Exceptions *)

Inductive exn : Type :=
| KeyError (key : string).

Inductive result (A : Type) : Type :=
| Ok (a : A)
| Raise (e : exn).
Arguments Ok {A} a.
Arguments Raise {A} e.

#[global] Instance result_ret : MRet result := fun _ a => Ok a.
#[global] Instance result_bind : MBind result := fun _ _ f m =>
  match m with
  | Ok a => f a
  | Raise e => Raise e
  end.

(** [d[key]] on a dict. *)
Definition getitem {V : Type} (d : gmap string V) (key : string) : result V :=
  match d !! key with
  | Some v => Ok v
  | None => Raise (KeyError key)
  end.

(** ** The accumulators *)

(** The module-level lists [squads] and [companions]; an element [[guid, name]]
    is a pair. *)
Record lists : Type := Lists {
  squads : list (string * string);
  companions : list (string * string)
}.

Definition squads_append (x : string * string) (st : lists) : lists :=
  {| squads := squads st ++ [x]; companions := companions st |}.

Definition companions_append (x : string * string) (st : lists) : lists :=
  {| squads := squads st; companions := companions st ++ [x] |}.

(** ** Classification of one record *)

Definition BlueprintUnit : string := "Kingmaker.Blueprints.BlueprintUnit".

(** The four [if] statements of the loop body, in order.  Each one is a plain
    [if]: the local [name] is reassigned by the first, second and fourth, and
    the later tests read the reassigned value. *)
Definition classify (name type guid : string) (st : lists) : lists :=
  let '(name, st) :=
    if Py.endswith name "_Companion" then
      let name := Py.slice_to_neg 10 name in
      (name, companions_append (guid, name) st)
    else (name, st) in
  let '(name, st) :=
    if Py.startswith name "AnimalCompanionUnit" then
      let name := Py.slice_from 19 name in
      (name, companions_append (guid, name) st)
    else (name, st) in
  let st :=
    if String.eqb name "AzataDragonUnit" then
      companions_append (guid, "Aivu") st
    else st in
  let '(name, st) :=
    if Py.startswith name "Army" && String.eqb type BlueprintUnit then
      let name := Py.slice_from 4 name in
      (name, squads_append (guid, name) st)
    else (name, st) in
  st.

(** The body of [for entry in data['Entries']]: three subscripts, then the
    classification. *)
Definition loop_body (entry : gmap string string) (st : lists) : result lists :=
  name ← getitem entry "Name";
  type ← getitem entry "TypeFullName";
  guid ← getitem entry "Guid";
  mret (classify name type guid st).

Fixpoint for_entries (entries : list (gmap string string)) (st : lists)
  : result lists :=
  match entries with
  | [] => Ok st
  | entry :: rest => st' ← loop_body entry st; for_entries rest st'
  end.

(** The first [with] block, from the parsed document on. *)
Definition extract (data : gmap string (list (gmap string string)))
  : result lists :=
  entries ← getitem data "Entries";
  for_entries entries {| squads := []; companions := [] |}.

(** The two lists as the script creates them. *)
Definition no_entries : lists := {| squads := []; companions := [] |}.

(** The required fields, in the order the loop body reads them. *)
Definition required : list string := ["Name"; "TypeFullName"; "Guid"].

(** ** The emitter *)

Definition nl : string := String "010"%char EmptyString.
Definition dq : string := String "034"%char EmptyString.

(** One rendered line of the [for] loop of [as_string_function]. *)
Definition arm (guid name : string) : string :=
  "        " +:+ dq +:+ guid +:+ dq +:+ " => Some(" +:+ dq +:+ name +:+ dq
  +:+ ")," +:+ nl.

(** The [for [guid, name] in entries] loop, accumulating into [code]. *)
Fixpoint arms_loop (code : string) (entries : list (string * string)) : string :=
  match entries with
  | [] => code
  | (guid, name) :: rest =>
      if String.eqb name "" then arms_loop code rest
      else arms_loop (code +:+ arm guid name) rest
  end.

Definition catch_all : string :=
  "        _ => {" +:+ nl +:+
  "            info!(" +:+ dq +:+ "Unknown party member found: {}" +:+ dq
    +:+ ", s);" +:+ nl +:+
  "            None" +:+ nl +:+
  "        }" +:+ nl.

Definition closing : string := "    }" +:+ nl +:+ "}".

Definition as_string_function (type : string) (entries : list (string * string))
  : string :=
  let code := "/// Convert a " +:+ type +:+ " guid into its (english) name" +:+ nl in
  let code := code +:+ "pub fn " +:+ type
                   +:+ "_as_string(s: &str) -> Option<&'static str> {" +:+ nl in
  let code := code +:+ "    match s {" +:+ nl in
  let code := arms_loop code entries in
  let code := code +:+ catch_all in
  let code := code +:+ closing in
  code.

(** ** The whole script *)

Definition names_rs : string := "src/data/names.rs".

(** The text written by the second [with] block. *)
Definition generated (st : lists) : string :=
  let code := "use log::info;" +:+ nl +:+ nl in
  let code := code +:+ as_string_function "squad" (squads st) in
  let code := code +:+ nl +:+ nl in
  let code := code +:+ as_string_function "companion" (companions st) in
  let code := code +:+ nl in
  code.

(** Running the script on a parsed document and a file system: an exception
    raised by the first block ends the run before the second block opens the
    output file.  The success branch is the run in which [open] and [write]
    succeed; an [OSError] of either is not modelled. *)
Definition main (data : gmap string (list (gmap string string)))
    (fs : gmap string string) : result unit * gmap string string :=
  match extract data with
  | Raise e => (Raise e, fs)
  | Ok st => (Ok tt, <[names_rs := generated st]> fs)
  end.

(** ** The generated lookup function *)

(** The entries for which the loop of [as_string_function] emits an arm. *)
Definition rendered (entries : list (string * string)) : list (string * string) :=
  filter (λ e, e.2 ≠ "") entries.

(** The text of a sequence of arms. *)
Fixpoint arms_text (arms : list (string * string)) : string :=
  match arms with
  | [] => ""
  | (guid, name) :: rest => arm guid name +:+ arms_text rest
  end.

(** Modelled from the spec: the evaluation of the generated Rust [match s]
    of [src/data/names.rs], which is an output of the script and not part of
    its source.  Arms are tried from top to bottom and the first literal
    pattern equal to [s] decides; the final [_] arm logs and yields [None].
    The arms are those read back from the emitted text, see
    [parse_function] below. *)
Fixpoint eval_match (arms : list (string * string)) (s : string) : option string :=
  match arms with
  | [] => None
  | (pattern, name) :: rest =>
      if String.eqb s pattern then Some name else eval_match rest s
  end.

(** The three header lines of a generated function, as one text. *)
Definition prologue (type : string) : string :=
  ("/// Convert a " +:+ type +:+ " guid into its (english) name" +:+ nl)
  +:+ ("pub fn " +:+ type +:+ "_as_string(s: &str) -> Option<&'static str> {" +:+ nl)
  +:+ ("    match s {" +:+ nl).

(** ** Reading the generated function back *)

(** The generated file [src/data/names.rs] and the Rust language are not
    part of the script.  What follows reads the emitted text as Rust, in the
    layout that [as_string_function] emits, and answers [None] for any text
    that is not valid Rust or that lies outside this fragment. *)

(** [s] without the leading [p], when [s] begins with [p]. *)
Fixpoint strip_prefix (p s : string) : option string :=
  match p with
  | EmptyString => Some s
  | String c p' =>
      match s with
      | EmptyString => None
      | String d s' => if Ascii.eqb c d then strip_prefix p' s' else None
      end
  end.

(** Modelled from the spec: the generated Rust is not in the source.  The
    character denoted by a one-letter escape after a backslash; the escapes
    with hexadecimal digits and the line continuation are not read. *)
Definition unescape (e : ascii) : option ascii :=
  if Ascii.eqb e "n" then Some "010"%char
  else if Ascii.eqb e "r" then Some "013"%char
  else if Ascii.eqb e "t" then Some "009"%char
  else if Ascii.eqb e "0" then Some "000"%char
  else if Ascii.eqb e "092" then Some "092"%char
  else if Ascii.eqb e "034" then Some "034"%char
  else if Ascii.eqb e "'" then Some "'"%char
  else None.

(** Modelled from the spec: the generated Rust is not in the source.  The
    rest of a string literal whose opening quote has been read: the string
    it denotes and the text after its closing quote.  The literal ends at
    the first unescaped double quote; a carriage return is not read. *)
Fixpoint lex_literal (s : string) : option (string * string) :=
  match s with
  | EmptyString => None
  | String c s' =>
      if Ascii.eqb c "034" then Some (EmptyString, s')
      else if Ascii.eqb c "013" then None
      else if Ascii.eqb c "092" then
        match s' with
        | EmptyString => None
        | String e s'' =>
            match unescape e, lex_literal s'' with
            | Some d, Some (lit, rest) => Some (String d lit, rest)
            | _, _ => None
            end
        end
      else
        match lex_literal s' with
        | Some (lit, rest) => Some (String c lit, rest)
        | None => None
        end
  end.

(** Modelled from the spec: the generated Rust is not in the source.  One
    arm, a literal pattern and the literal name it maps to, and the text
    after it. *)
Definition parse_arm (s : string) : option ((string * string) * string) :=
  s ← strip_prefix "        " s;
  s ← strip_prefix dq s;
  '(pattern, s) ← lex_literal s;
  s ← strip_prefix " => Some(" s;
  s ← strip_prefix dq s;
  '(name, s) ← lex_literal s;
  s ← strip_prefix ")," s;
  s ← strip_prefix nl s;
  Some ((pattern, name), s).

(** Modelled from the spec: the generated Rust is not in the source.  The
    arms up to and including the catch-all arm, and the text after it.
    Every arm consumes at least one character, so the length of the text is
    enough fuel. *)
Fixpoint parse_arms (fuel : nat) (s : string)
  : option (list (string * string) * string) :=
  match fuel with
  | O => None
  | S fuel' =>
      match strip_prefix catch_all s with
      | Some rest => Some ([], rest)
      | None =>
          '(a, s') ← parse_arm s;
          '(arms, rest) ← parse_arms fuel' s';
          Some (a :: arms, rest)
      end
  end.

Definition is_letter (c : ascii) : bool :=
  let n := nat_of_ascii c in
  ((65 <=? n)%nat && (n <=? 90)%nat) || ((97 <=? n)%nat && (n <=? 122)%nat)
  || (n =? 95)%nat.

Definition is_digit (c : ascii) : bool :=
  let n := nat_of_ascii c in (48 <=? n)%nat && (n <=? 57)%nat.

Fixpoint all_chars (p : ascii → bool) (s : string) : bool :=
  match s with
  | EmptyString => true
  | String c s' => p c && all_chars p s'
  end.

(** Modelled from the spec: the generated Rust is not in the source.  An
    ASCII identifier: enough for [<type>_as_string] to name a function and
    for the doc comment to stay on its line. *)
Definition is_identifier (s : string) : bool :=
  match s with
  | EmptyString => false
  | String c s' => is_letter c && all_chars (λ c, is_letter c || is_digit c) s'
  end.

(** Modelled from the spec: the generated Rust is not in the source.  The
    arms of the function [<type>_as_string] that [text] defines. *)
Definition parse_function (type text : string) : option (list (string * string)) :=
  if is_identifier type then
    s ← strip_prefix (prologue type) text;
    '(arms, rest) ← parse_arms (S (String.length s)) s;
    if String.eqb rest closing then Some arms else None
  else None.

(** Modelled from the spec: the generated Rust is not in the source.  The
    call [<type>_as_string(s)] of the function emitted for [entries]: [None]
    when the emitted text is not read as a function, [Some r] when the call
    returns [r]. *)
Definition generated_lookup (type : string) (entries : list (string * string))
    (s : string) : option (option string) :=
  arms ← parse_function type (as_string_function type entries);
  Some (eval_match arms s).

(** A character that stands for itself in a string literal. *)
Definition plain_char (c : ascii) : bool :=
  negb (Ascii.eqb c "034") && negb (Ascii.eqb c "092")
  && negb (Ascii.eqb c "013").

(** An identifier and a name that the emitted literals denote unchanged. *)
Definition plain_entry (e : string * string) : Prop :=
  all_chars plain_char e.1 = true ∧ all_chars plain_char e.2 = true.

(** ** Auxiliary notions for the statements *)

(** The value of the local [name] once the first two [if] statements of the
    loop body have run: the value the third and fourth tests read. *)
Definition after_strips (name : string) : string :=
  let name :=
    if Py.endswith name "_Companion" then Py.slice_to_neg 10 name else name in
  if Py.startswith name "AnimalCompanionUnit" then Py.slice_from 19 name
  else name.

(** Both lists of [st] followed by those of [more]. *)
Definition lists_app (st more : lists) : lists :=
  {| squads := squads st ++ squads more;
     companions := companions st ++ companions more |}.

(** A record on which the three subscripts of the loop body succeed. *)
Definition complete (entry : gmap string string) : Prop :=
  ∀ key, key ∈ required → is_Some (entry !! key).

(** A document on which the first block raises nothing. *)
Definition well_formed (data : gmap string (list (gmap string string))) : Prop :=
  ∃ entries, data !! "Entries" = Some entries ∧ Forall complete entries.

(** ** Sample documents *)

(** Two records with one [Guid]; the first resolves to the empty name. *)
Definition two_records_one_guid : gmap string (list (gmap string string)) :=
  {[ "Entries" :=
       [ {[ "Name" := "_Companion"; "TypeFullName" := "X"; "Guid" := "G1" ]};
         {[ "Name" := "Hero_Companion"; "TypeFullName" := "X"; "Guid" := "G1" ]} ] ]}.

(** A record whose [Guid] is the empty string. *)
Definition record_without_guid_text : gmap string (list (gmap string string)) :=
  {[ "Entries" :=
       [ {[ "Name" := "Hero_Companion"; "TypeFullName" := "X"; "Guid" := "" ]} ] ]}.

(** A well-formed record followed by one without [Guid]. *)
Definition second_record_lacks_guid : gmap string (list (gmap string string)) :=
  {[ "Entries" :=
       [ {[ "Name" := "Hero_Companion"; "TypeFullName" := "X"; "Guid" := "G1" ]};
         {[ "Name" := "ArmyOrcs"; "TypeFullName" := BlueprintUnit ]} ] ]}.

(** The two records of the disjointness sample. *)
Definition sample_document : gmap string (list (gmap string string)) :=
  {[ "Entries" :=
       [ {[ "Name" := "GoblinWarrior_Companion"; "TypeFullName" := "X";
            "Guid" := "G1" ]};
         {[ "Name" := "ArmyGoblinSquad"; "TypeFullName" := BlueprintUnit;
            "Guid" := "G2" ]} ] ]}.

(** A name that closes its string literal, ends its arm and opens an arm
    for [G1]. *)
Definition injected_name : string :=
  "Z" +:+ dq +:+ ")," +:+ nl
  +:+ "        " +:+ dq +:+ "G1" +:+ dq +:+ " => Some(" +:+ dq +:+ "C".

(** * Properties *)

(** ** Strings *)

Section string_facts.

Lemma append_nil (b : string) : "" +:+ b = b.
Proof. reflexivity. Qed.

Lemma append_cons (c : ascii) (a b : string) :
  String c a +:+ b = String c (a +:+ b).
Proof. reflexivity. Qed.

Lemma append_assoc (a b c : string) : (a +:+ b) +:+ c = a +:+ (b +:+ c).
Proof.
  induction a as [|x a IH]; [done |].
  by rewrite !append_cons, IH.
Qed.

Lemma append_empty_r (a : string) : a +:+ "" = a.
Proof.
  induction a as [|x a IH]; [done |].
  by rewrite append_cons, IH.
Qed.

Lemma length_append (a b : string) :
  String.length (a +:+ b) = String.length a + String.length b.
Proof.
  induction a as [|x a IH]; [done |].
  rewrite append_cons; simpl. by rewrite IH.
Qed.

Lemma slice_from_append (a b : string) :
  Py.slice_from (String.length a) (a +:+ b) = b.
Proof.
  induction a as [|x a IH]; [by destruct b |].
  by rewrite append_cons.
Qed.

Lemma slice_to_append (a b : string) :
  Py.slice_to (String.length a) (a +:+ b) = a.
Proof.
  induction a as [|x a IH]; [by destruct b |].
  rewrite append_cons; simpl. by rewrite IH.
Qed.

Lemma slice_to_from (n : nat) (s : string) :
  Py.slice_to n s +:+ Py.slice_from n s = s.
Proof.
  revert s; induction n as [|n IH]; intros [|c s]; simpl;
    rewrite ?append_nil, ?append_cons, ?IH; done.
Qed.

Lemma startswith_nil (s : string) : Py.startswith s "" = true.
Proof. by destruct s. Qed.

Lemma startswith_cons (c d : ascii) (p s : string) :
  Py.startswith (String d s) (String c p)
  = if ascii_dec c d then Py.startswith s p else false.
Proof. reflexivity. Qed.

Lemma startswith_append (p rest : string) : Py.startswith (p +:+ rest) p = true.
Proof.
  induction p as [|c p IH]; [apply startswith_nil |].
  rewrite append_cons, startswith_cons.
  destruct (ascii_dec c c); [done | congruence].
Qed.


Lemma endswith_append (base p : string) : Py.endswith (base +:+ p) p = true.
Proof.
  unfold Py.endswith. rewrite length_append.
  replace (String.length base + String.length p - String.length p)
    with (String.length base) by lia.
  rewrite slice_from_append, String.eqb_refl, andb_true_r.
  apply Nat.leb_le; lia.
Qed.

Lemma slice_to_neg_append (base p : string) :
  Py.slice_to_neg (String.length p) (base +:+ p) = base.
Proof.
  unfold Py.slice_to_neg. rewrite length_append.
  replace (String.length base + String.length p - String.length p)
    with (String.length base) by lia.
  apply slice_to_append.
Qed.

Lemma endswith_inv (s p : string) :
  Py.endswith s p = true → s = Py.slice_to_neg (String.length p) s +:+ p.
Proof.
  unfold Py.endswith, Py.slice_to_neg.
  intros [_ H%String.eqb_eq]%andb_true_iff.
  set (n := String.length s - String.length p) in *.
  rewrite <- H. by rewrite slice_to_from.
Qed.

End string_facts.

(** ** The shape of the emitted text *)

Section emitter_facts.

Implicit Types (entries arms : list (string * string)) (s code : string).

Lemma rendered_nil : rendered [] = [].
Proof. reflexivity. Qed.

Lemma rendered_cons_empty guid entries :
  rendered ((guid, "") :: entries) = rendered entries.
Proof. unfold rendered. by rewrite filter_cons_False by (simpl; auto). Qed.

Lemma rendered_cons_named guid name entries :
  name ≠ "" → rendered ((guid, name) :: entries) = (guid, name) :: rendered entries.
Proof. intros H. unfold rendered. by rewrite filter_cons_True. Qed.

Lemma rendered_app entries1 entries2 :
  rendered (entries1 ++ entries2) = rendered entries1 ++ rendered entries2.
Proof. apply filter_app. Qed.

Lemma elem_of_rendered guid name entries :
  (guid, name) ∈ rendered entries ↔ (guid, name) ∈ entries ∧ name ≠ "".
Proof. unfold rendered. rewrite list_elem_of_filter. simpl. tauto. Qed.

Lemma arms_text_app arms1 arms2 :
  arms_text (arms1 ++ arms2) = arms_text arms1 +:+ arms_text arms2.
Proof.
  induction arms1 as [|[g n] arms1 IH]; simpl; [done |].
  by rewrite IH, append_assoc.
Qed.

(** The loop appends to [code] the arms of the named entries, in order. *)
Lemma arms_loop_spec entries code :
  arms_loop code entries = code +:+ arms_text (rendered entries).
Proof.
  revert code; induction entries as [|[g n] entries IH]; intros code; simpl.
  - by rewrite append_empty_r.
  - destruct (String.eqb_spec n "") as [->|Hn].
    + by rewrite rendered_cons_empty.
    + rewrite rendered_cons_named by done. simpl.
      by rewrite IH, append_assoc.
Qed.

(** The shape of the emitted function: header, arms of the named entries
    in input order, catch-all, closing braces. *)
Lemma as_string_function_spec type entries :
  as_string_function type entries
  = prologue type +:+ arms_text (rendered entries) +:+ catch_all +:+ closing.
Proof.
  unfold as_string_function, prologue.
  rewrite arms_loop_spec. by rewrite !append_assoc.
Qed.

Lemma eval_match_app arms1 arms2 s :
  eval_match (arms1 ++ arms2) s
  = match eval_match arms1 s with
    | Some name => Some name
    | None => eval_match arms2 s
    end.
Proof.
  induction arms1 as [|[g n] arms1 IH]; simpl; [done |].
  by destruct (String.eqb s g).
Qed.

Lemma eval_match_Some arms s name :
  eval_match arms s = Some name → (s, name) ∈ arms.
Proof.
  induction arms as [|[g n] arms IH]; simpl; [done |].
  destruct (String.eqb_spec s g) as [->|_].
  - intros [= ->]. apply list_elem_of_here.
  - intros H. apply list_elem_of_further, IH, H.
Qed.

Lemma eval_match_None arms s :
  eval_match arms s = None ↔ ∀ name, (s, name) ∉ arms.
Proof.
  induction arms as [|[g n] arms IH]; simpl.
  - split; [| done]. intros _ name H. by apply elem_of_nil in H.
  - destruct (String.eqb_spec s g) as [->|Hne].
    + split; [done |]. intros H. destruct (H n). apply list_elem_of_here.
    + rewrite IH. split.
      * intros H name [[= ? ?]|Hin]%elem_of_cons; [done | by apply (H name)].
      * intros H name Hin. apply (H name). by apply list_elem_of_further.
Qed.

(** [None] is returned exactly for the identifiers all of whose entries
    are unnamed. *)
Lemma eval_rendered_None entries s :
  eval_match (rendered entries) s = None ↔ ∀ name, (s, name) ∈ entries → name = "".
Proof.
  rewrite eval_match_None. split.
  - intros H name Hin. destruct (decide (name = "")) as [|Hn]; [done |].
    destruct (H name). by apply elem_of_rendered.
  - intros H name [Hin Hn]%elem_of_rendered. by apply Hn, H.
Qed.

Lemma eval_rendered_Some entries s name :
  eval_match (rendered entries) s = Some name → (s, name) ∈ entries ∧ name ≠ "".
Proof. intros H%eval_match_Some. by apply elem_of_rendered. Qed.

End emitter_facts.

(** ** Reading the emitted text back *)

Section reading_facts.

Implicit Types (entries arms : list (string * string)) (s rest : string).

Lemma strip_prefix_append (p rest : string) : strip_prefix p (p +:+ rest) = Some rest.
Proof.
  induction p as [|c p IH]; [done |].
  rewrite append_cons. simpl. by rewrite Ascii.eqb_refl.
Qed.

Lemma lex_literal_plain (lit rest : string) :
  all_chars plain_char lit = true →
  lex_literal (lit +:+ dq +:+ rest) = Some (lit, rest).
Proof.
  induction lit as [|c lit IH]; [done |].
  intros [Hc Hlit]%andb_true_iff.
  rewrite append_cons. cbn [lex_literal]. rewrite (IH Hlit).
  unfold plain_char in Hc.
  destruct (Ascii.eqb c "034"); [done |].
  destruct (Ascii.eqb c "092"); [done |].
  by destruct (Ascii.eqb c "013").
Qed.

Lemma parse_arm_arm guid name rest :
  plain_entry (guid, name) →
  parse_arm (arm guid name +:+ rest) = Some ((guid, name), rest).
Proof.
  intros [Hguid Hname]. unfold parse_arm, arm. simpl in Hguid, Hname.
  rewrite !append_assoc.
  rewrite strip_prefix_append. cbn [mbind option_bind].
  rewrite strip_prefix_append. cbn [mbind option_bind].
  rewrite (lex_literal_plain _ _ Hguid). cbn [mbind option_bind].
  rewrite strip_prefix_append. cbn [mbind option_bind].
  rewrite strip_prefix_append. cbn [mbind option_bind].
  rewrite (lex_literal_plain _ _ Hname). cbn [mbind option_bind].
  rewrite strip_prefix_append. cbn [mbind option_bind].
  by rewrite strip_prefix_append.
Qed.

Lemma strip_catch_all_arm guid name rest :
  strip_prefix catch_all (arm guid name +:+ rest) = None.
Proof. reflexivity. Qed.

Lemma length_arms_text arms rest :
  length arms ≤ String.length (arms_text arms +:+ rest).
Proof.
  induction arms as [|[guid name] arms IH]; cbn [arms_text length]; [lia |].
  rewrite !length_append in *. unfold arm. rewrite !length_append.
  cbn [String.length]. lia.
Qed.

Lemma parse_arms_arms_text arms fuel :
  length arms < fuel →
  Forall plain_entry arms →
  parse_arms fuel (arms_text arms +:+ catch_all +:+ closing) = Some (arms, closing).
Proof.
  revert fuel. induction arms as [|[guid name] arms IH]; intros [|fuel] Hfuel Hplain;
    try (simpl in Hfuel; lia).
  - cbn [arms_text parse_arms]. by rewrite append_nil, strip_prefix_append.
  - inversion Hplain as [|? ? Hhead Htail]; subst.
    cbn [arms_text parse_arms]. rewrite append_assoc.
    rewrite strip_catch_all_arm, (parse_arm_arm _ _ _ Hhead).
    cbn [mbind option_bind].
    rewrite IH; [done | simpl in Hfuel; lia | done].
Qed.

(** On entries that need no escaping the emitted text is read back as the
    arms of the named entries, in order. *)
Lemma parse_function_plain type entries :
  is_identifier type = true →
  Forall plain_entry (rendered entries) →
  parse_function type (as_string_function type entries) = Some (rendered entries).
Proof.
  intros Htype Hplain. unfold parse_function. rewrite Htype.
  rewrite as_string_function_spec, strip_prefix_append.
  cbn [mbind option_bind].
  rewrite parse_arms_arms_text; [| | done].
  - cbn [mbind option_bind]. by rewrite String.eqb_refl.
  - pose proof (length_arms_text (rendered entries) (catch_all +:+ closing)). lia.
Qed.

Lemma generated_lookup_plain type entries s :
  is_identifier type = true →
  Forall plain_entry (rendered entries) →
  generated_lookup type entries s = Some (eval_match (rendered entries) s).
Proof.
  intros Htype Hplain. unfold generated_lookup.
  by rewrite parse_function_plain.
Qed.

End reading_facts.

(** ** The extraction loop *)

Ltac in_required :=
  unfold required;
  first [ apply list_elem_of_here
        | apply list_elem_of_further, list_elem_of_here
        | apply list_elem_of_further, list_elem_of_further, list_elem_of_here ].

Section extraction_facts.

Implicit Types (entry : gmap string string) (st : lists) (x : string * string).

Lemma getitem_Some {V : Type} (d : gmap string V) key v :
  d !! key = Some v → getitem d key = Ok v.
Proof. unfold getitem. by intros ->. Qed.

Lemma getitem_None {V : Type} (d : gmap string V) key :
  d !! key = None → getitem d key = Raise (KeyError key).
Proof. unfold getitem. by intros ->. Qed.

Lemma loop_body_Ok entry name type guid st :
  entry !! "Name" = Some name →
  entry !! "TypeFullName" = Some type →
  entry !! "Guid" = Some guid →
  loop_body entry st = Ok (classify name type guid st).
Proof.
  intros Hn Ht Hg. unfold loop_body.
  by rewrite (getitem_Some _ _ _ Hn), (getitem_Some _ _ _ Ht),
    (getitem_Some _ _ _ Hg).
Qed.

Lemma loop_body_Ok_inv entry st st' :
  loop_body entry st = Ok st' →
  ∃ name type guid,
    entry !! "Name" = Some name ∧ entry !! "TypeFullName" = Some type
    ∧ entry !! "Guid" = Some guid ∧ st' = classify name type guid st.
Proof.
  unfold loop_body, getitem.
  destruct (entry !! "Name") as [name|]; [| done].
  destruct (entry !! "TypeFullName") as [type|]; [| done].
  destruct (entry !! "Guid") as [guid|]; [| done].
  intros [= <-]. by exists name, type, guid.
Qed.

(** A record without one of the fields raises, whatever was accumulated. *)
Lemma loop_body_Raise entry st :
  (∃ key, key ∈ required ∧ entry !! key = None) →
  ∃ key, key ∈ required ∧ entry !! key = None
         ∧ loop_body entry st = Raise (KeyError key).
Proof.
  intros Hmissing. unfold loop_body, getitem.
  destruct (entry !! "Name") as [name|] eqn:Hn.
  2: { exists "Name". repeat split; [| done]. in_required. }
  destruct (entry !! "TypeFullName") as [type|] eqn:Ht.
  2: { exists "TypeFullName". repeat split; [| done]. in_required. }
  destruct (entry !! "Guid") as [guid|] eqn:Hg.
  2: { exists "Guid". repeat split; [| done]. in_required. }
  exfalso. destruct Hmissing as (key & Hkey & Hnone). unfold required in Hkey.
  repeat (apply elem_of_cons in Hkey as [->|Hkey]; [congruence |]).
  by apply elem_of_nil in Hkey.
Qed.

(** The loop stops at the first record that raises. *)
Lemma for_entries_Raise entries entry st :
  entry ∈ entries →
  (∃ key, key ∈ required ∧ entry !! key = None) →
  ∃ key, key ∈ required ∧ for_entries entries st = Raise (KeyError key).
Proof.
  intros Hin Hmissing. revert st.
  induction entries as [|e rest IH]; intros st; [by apply elem_of_nil in Hin |].
  simpl. destruct (loop_body e st) as [st'|[key]] eqn:Hbody.
  - apply elem_of_cons in Hin as [->|Hin].
    + destruct (loop_body_Raise e st Hmissing) as (? & _ & _ & ?).
      congruence.
    + apply (IH Hin st').
  - destruct (decide (key ∈ required)) as [|Hkey]; [by exists key |].
    exfalso. revert Hbody. unfold loop_body, getitem.
    destruct (e !! "Name");
      [| intros [= <-]; apply Hkey; in_required].
    destruct (e !! "TypeFullName");
      [| intros [= <-]; apply Hkey; in_required].
    destruct (e !! "Guid");
      [done | intros [= <-]; apply Hkey; in_required].
Qed.

(** Every pair added by one classification carries the record's [guid]. *)
Lemma classify_identifiers name type guid st x :
  x ∈ squads (classify name type guid st)
    ∨ x ∈ companions (classify name type guid st) →
  (x ∈ squads st ∨ x ∈ companions st) ∨ x.1 = guid.
Proof.
  unfold classify.
  repeat match goal with
         | |- context [if ?b then _ else _] => destruct b
         end; simpl;
    rewrite ?elem_of_app, ?list_elem_of_singleton;
    intros H; decompose [or] H; subst; simpl; auto.
Qed.

Lemma for_entries_identifiers entries st st' x :
  for_entries entries st = Ok st' →
  x ∈ squads st' ∨ x ∈ companions st' →
  (x ∈ squads st ∨ x ∈ companions st)
  ∨ ∃ entry, entry ∈ entries ∧ entry !! "Guid" = Some x.1.
Proof.
  revert st; induction entries as [|e rest IH]; intros st; simpl.
  - intros [= <-]. auto.
  - destruct (loop_body e st) as [st1|] eqn:Hbody; [| done].
    apply loop_body_Ok_inv in Hbody as (name & type & guid & _ & _ & Hg & ->).
    intros Hrest Hx. destruct (IH _ Hrest Hx) as [Hold|(e' & He' & Hguid)].
    + apply classify_identifiers in Hold as [Hold| <-]; [by left |].
      right. exists e. split; [apply list_elem_of_here | done].
    + right. exists e'. split; [by apply list_elem_of_further | done].
Qed.

End extraction_facts.

(** ** What one record adds *)

Section classification_laws.

Implicit Types (name type guid : string) (st : lists) (x : string * string).

Lemma lists_app_no_entries st : lists_app st no_entries = st.
Proof. destruct st. unfold lists_app. simpl. by rewrite !app_nil_r. Qed.

Lemma lists_app_assoc st a b :
  lists_app (lists_app st a) b = lists_app st (lists_app a b).
Proof. unfold lists_app. simpl. by rewrite !app_assoc. Qed.


(** Only the fourth rule touches squads, and it reads the stripped name. *)
Lemma classify_squads name type guid st :
  squads (classify name type guid st)
  = squads st
    ++ (if Py.startswith (after_strips name) "Army" && String.eqb type BlueprintUnit
        then [(guid, Py.slice_from 4 (after_strips name))] else []).
Proof.
  unfold classify, after_strips.
  destruct (Py.endswith name "_Companion");
    destruct (Py.startswith _ "AnimalCompanionUnit");
    destruct (String.eqb _ "AzataDragonUnit");
    destruct (_ && _);
    cbn [squads companions squads_append companions_append];
    by rewrite ?app_nil_r.
Qed.

(** What one record adds does not depend on what was accumulated. *)
Lemma classify_frame name type guid st0 st :
  classify name type guid (lists_app st0 st)
  = lists_app st0 (classify name type guid st).
Proof.
  unfold classify.
  destruct (Py.endswith name "_Companion");
    destruct (Py.startswith _ "AnimalCompanionUnit");
    destruct (String.eqb _ "AzataDragonUnit");
    destruct (_ && _);
    unfold lists_app;
    cbn [squads companions squads_append companions_append];
    by rewrite ?app_assoc.
Qed.

End classification_laws.

Section loop_laws.

Implicit Types (entry : gmap string string) (entries : list (gmap string string))
  (st : lists).

Lemma loop_body_frame entry st0 st :
  loop_body entry (lists_app st0 st)
  = match loop_body entry st with
    | Ok r => Ok (lists_app st0 r)
    | Raise e => Raise e
    end.
Proof.
  unfold loop_body, getitem.
  destruct (entry !! "Name"); [| done].
  destruct (entry !! "TypeFullName"); [| done].
  destruct (entry !! "Guid"); [| done].
  simpl. by rewrite classify_frame.
Qed.

Lemma for_entries_frame entries st0 st :
  for_entries entries (lists_app st0 st)
  = match for_entries entries st with
    | Ok r => Ok (lists_app st0 r)
    | Raise e => Raise e
    end.
Proof.
  revert st; induction entries as [|entry rest IH]; intros st; [done |].
  simpl. rewrite loop_body_frame.
  destruct (loop_body entry st) as [st1|e]; [| done].
  apply IH.
Qed.

Lemma for_entries_app entries1 entries2 st :
  for_entries (entries1 ++ entries2) st
  = match for_entries entries1 st with
    | Ok st1 => for_entries entries2 st1
    | Raise e => Raise e
    end.
Proof.
  revert st; induction entries1 as [|entry rest IH]; intros st; [done |].
  simpl. destruct (loop_body entry st) as [st1|e]; [| done].
  apply IH.
Qed.

End loop_laws.

(** ** Which record an entry comes from *)

Section provenance_facts.

Implicit Types (entry : gmap string string) (entries : list (gmap string string))
  (st : lists) (x : string * string).

(** What a record adds is what it yields from empty lists. *)
Lemma classify_own name type guid st :
  classify name type guid st = lists_app st (classify name type guid no_entries).
Proof.
  rewrite <- classify_frame. by rewrite lists_app_no_entries.
Qed.

Lemma classify_own_elem name type guid st x :
  x ∈ squads (classify name type guid st)
    ∨ x ∈ companions (classify name type guid st) →
  (x ∈ squads st ∨ x ∈ companions st)
  ∨ (x.1 = guid
     ∧ (x ∈ squads (classify name type guid no_entries)
        ∨ x ∈ companions (classify name type guid no_entries))).
Proof.
  rewrite (classify_own name type guid st).
  cbn [squads companions lists_app]. rewrite !elem_of_app.
  intros [[Hold|Hnew]|[Hold|Hnew]]; auto; right.
  - split; [| by left].
    destruct (classify_identifiers name type guid no_entries x) as [[H|H]|H];
      [by left | by apply elem_of_nil in H | by apply elem_of_nil in H | done].
  - split; [| by right].
    destruct (classify_identifiers name type guid no_entries x) as [[H|H]|H];
      [by right | by apply elem_of_nil in H | by apply elem_of_nil in H | done].
Qed.

Lemma for_entries_own_elem entries st st' x :
  for_entries entries st = Ok st' →
  x ∈ squads st' ∨ x ∈ companions st' →
  (x ∈ squads st ∨ x ∈ companions st)
  ∨ ∃ entry name type,
      entry ∈ entries
      ∧ entry !! "Name" = Some name
      ∧ entry !! "TypeFullName" = Some type
      ∧ entry !! "Guid" = Some x.1
      ∧ (x ∈ squads (classify name type x.1 no_entries)
         ∨ x ∈ companions (classify name type x.1 no_entries)).
Proof.
  revert st; induction entries as [|e rest IH]; intros st; simpl.
  - intros [= <-]. auto.
  - destruct (loop_body e st) as [st1|] eqn:Hbody; [| done].
    apply loop_body_Ok_inv in Hbody as (name & type & guid & Hn & Ht & Hg & ->).
    intros Hrest Hx.
    destruct (IH _ Hrest Hx) as [Hold|(e' & name' & type' & Hin & ?)].
    + apply classify_own_elem in Hold as [Hold|[<- Hnew]]; [by left |].
      right. exists e, name, type. split; [apply list_elem_of_here | done].
    + right. exists e', name', type'.
      split; [by apply list_elem_of_further | done].
Qed.

End provenance_facts.

(** * The classification rules *)

(** C1, as stated, fails: the four rules are independent [if] statements and
    the later ones test the already stripped name.  A name that ends with
    [_Companion] yields a second companions entry when the stripped name
    begins with [AnimalCompanionUnit], and a squads entry when it begins with
    [Army] and the type is the unit blueprint. *)
Lemma companion_suffix_rules_overlap :
  Py.endswith "AnimalCompanionUnitWolf_Companion" "_Companion" = true
  ∧ classify "AnimalCompanionUnitWolf_Companion" "X" "G1" no_entries
    = {| squads := [];
         companions := [("G1", "AnimalCompanionUnitWolf"); ("G1", "Wolf")] |}
  ∧ classify "AnimalCompanionUnitWolf_Companion" "X" "G1" no_entries
    ≠ companions_append ("G1", "AnimalCompanionUnitWolf") no_entries
  ∧ Py.endswith "ArmyOrcs_Companion" "_Companion" = true
  ∧ classify "ArmyOrcs_Companion" BlueprintUnit "G2" no_entries
    = {| squads := [("G2", "Orcs")]; companions := [("G2", "ArmyOrcs")] |}
  ∧ classify "ArmyOrcs_Companion" BlueprintUnit "G2" no_entries
    ≠ companions_append ("G2", "ArmyOrcs") no_entries.
Proof. repeat split; try reflexivity; vm_compute; discriminate. Qed.

(** C1 (amended): for a record whose name ends with [_Companion], the first
    entry it contributes is (identifier, name without its last 10
    characters), appended to companions.  The other rules are then applied to
    the stripped name, and the record contributes nothing more exactly when
    the stripped name does not begin with [AnimalCompanionUnit], is not
    [AzataDragonUnit], and is not an [Army] name of unit-blueprint type. *)
Theorem companion_suffix_first_entry (name type guid : string) (st : lists) :
  Py.endswith name "_Companion" = true →
  let stripped := Py.slice_to_neg 10 name in
  name = stripped +:+ "_Companion"
  ∧ ∃ more_companions more_squads,
      companions (classify name type guid st)
        = companions st ++ (guid, stripped) :: more_companions
      ∧ squads (classify name type guid st) = squads st ++ more_squads
      ∧ ((more_companions = [] ∧ more_squads = [])
         ↔ (Py.startswith stripped "AnimalCompanionUnit" = false
            ∧ stripped ≠ "AzataDragonUnit"
            ∧ ¬ (Py.startswith stripped "Army" = true ∧ type = BlueprintUnit))).
Proof.
  intros Hsuffix stripped. split; [apply (endswith_inv _ _ Hsuffix) |].
  unfold classify. rewrite Hsuffix. fold stripped.
  destruct (Py.startswith stripped "AnimalCompanionUnit") eqn:Hanimal;
    [| destruct (String.eqb_spec stripped "AzataDragonUnit") as [Hazata|Hazata];
       [| destruct (Py.startswith stripped "Army") eqn:Harmy;
          destruct (String.eqb_spec type BlueprintUnit) as [Htype|Htype] ] ];
    cbn [andb];
    repeat match goal with
           | |- context [if ?b then _ else _] => destruct b
           end;
    cbn [companions squads companions_append squads_append andb];
    eexists _, _;
    (split; [rewrite <- ?app_assoc; reflexivity |]);
    (split; [first [reflexivity | symmetry; apply app_nil_r] |]);
    (split; [intros [? ?] | intros (? & ? & Hnot)]);
    try discriminate; try done; try (destruct Hnot; done).
  all: repeat split; try done; by intros [? ?].
Qed.

Lemma companion_suffix_first_entry_witness :
  Py.endswith "Hero_Companion" "_Companion" = true
  ∧ ∃ more_companions more_squads,
      companions (classify "Hero_Companion" "X" "G1" no_entries)
        = [] ++ ("G1", Py.slice_to_neg 10 "Hero_Companion") :: more_companions
      ∧ squads (classify "Hero_Companion" "X" "G1" no_entries) = [] ++ more_squads
      ∧ more_companions = [] ∧ more_squads = [].
Proof.
  split; [reflexivity |].
  destruct (companion_suffix_first_entry "Hero_Companion" "X" "G1" no_entries
              eq_refl) as (_ & mc & ms & Hc & Hs & Hnone).
  exists mc, ms. split; [exact Hc | split; [exact Hs |]].
  apply Hnone. repeat split; [discriminate |]. intros [? _]. discriminate.
Defined.



(** C8: [AnimalCompanionUnitWolf] resolves to [Wolf], [Hero_Companion] to
    [Hero] and [AzataDragonUnit] to [Aivu]; each is appended to companions,
    and nothing else is appended, whatever the type and the identifier. *)
Theorem stripping_examples (type guid : string) (st : lists) :
  classify "AnimalCompanionUnitWolf" type guid st
    = {| squads := squads st; companions := companions st ++ [(guid, "Wolf")] |}
  ∧ classify "Hero_Companion" type guid st
    = {| squads := squads st; companions := companions st ++ [(guid, "Hero")] |}
  ∧ classify "AzataDragonUnit" type guid st
    = {| squads := squads st; companions := companions st ++ [(guid, "Aivu")] |}.
Proof. repeat split. Qed.

(** C10: a record with the empty name matches no rule: both lists are left
    as they were, and the loop body raises nothing. *)
Theorem empty_name_ignored (entry : gmap string string) (type guid : string)
    (st : lists) :
  entry !! "Name" = Some "" →
  entry !! "TypeFullName" = Some type →
  entry !! "Guid" = Some guid →
  classify "" type guid st = st ∧ loop_body entry st = Ok st.
Proof.
  intros Hn Ht Hg.
  assert (classify "" type guid st = st) as Hsame by reflexivity.
  split; [exact Hsame |].
  by rewrite (loop_body_Ok entry "" type guid st Hn Ht Hg), Hsame.
Qed.

Lemma empty_name_ignored_witness :
  loop_body {[ "Name" := ""; "TypeFullName" := BlueprintUnit; "Guid" := "G1" ]}
    no_entries = Ok no_entries.
Proof.
  apply (empty_name_ignored _ BlueprintUnit "G1" no_entries);
    vm_compute; reflexivity.
Defined.

(** * The emitted lookup functions *)



(** C5, as stated, fails: nothing is escaped, so an identifier that holds a
    double quote closes its own literal; in the emitted line the letter [b]
    follows the closed literal, which is not an arm, and the emitted text is
    not a function that could return anything, whatever the input. *)
Lemma quoted_identifier_is_not_a_function :
  arms_loop "" [("a" +:+ dq +:+ "b", "n")]
  = "        " +:+ dq +:+ "a" +:+ dq +:+ "b" +:+ dq +:+ " => Some(" +:+ dq
    +:+ "n" +:+ dq +:+ ")," +:+ nl
  ∧ ∀ s, generated_lookup "squad" [("a" +:+ dq +:+ "b", "n")] s = None.
Proof. split; [reflexivity |]. intros s. reflexivity. Qed.

(** C5 (amended): every generated function ends with the catch-all arm,
    placed after the arms of the entries.  When the category is an
    identifier and no identifier or name of a named entry holds a double
    quote, a backslash or a carriage return, the generated function is
    total: on every input string it returns the name of a named entry with
    that identifier, or [None] when the identifier has no named entry. *)
Theorem lookup_total (type : string) (entries : list (string * string))
    (s : string) :
  as_string_function type entries
  = prologue type +:+ arms_text (rendered entries)
    +:+ ("        _ => {" +:+ nl
         +:+ "            info!(" +:+ dq +:+ "Unknown party member found: {}"
         +:+ dq +:+ ", s);" +:+ nl
         +:+ "            None" +:+ nl
         +:+ "        }" +:+ nl)
    +:+ ("    }" +:+ nl +:+ "}")
  ∧ (is_identifier type = true →
     Forall plain_entry (rendered entries) →
     (∃ name, generated_lookup type entries s = Some (Some name)
              ∧ (s, name) ∈ entries ∧ name ≠ "")
     ∨ (generated_lookup type entries s = Some None
        ∧ ∀ name, (s, name) ∈ entries → name = "")).
Proof.
  split; [apply as_string_function_spec |].
  intros Htype Hplain. rewrite (generated_lookup_plain _ _ _ Htype Hplain).
  destruct (eval_match (rendered entries) s) as [name|] eqn:Heval.
  - left. exists name. split; [done |]. by apply eval_rendered_Some.
  - right. split; [done |]. by apply eval_rendered_None.
Qed.

Lemma lookup_total_witness :
  (∃ name, generated_lookup "squad" [("G1", "Orcs"); ("G2", "")] "G1"
           = Some (Some name)
           ∧ ("G1", name) ∈ [("G1", "Orcs"); ("G2", "")] ∧ name ≠ "")
  ∨ (generated_lookup "squad" [("G1", "Orcs"); ("G2", "")] "G1" = Some None
     ∧ ∀ name, ("G1", name) ∈ [("G1", "Orcs"); ("G2", "")] → name = "").
Proof.
  apply (lookup_total "squad" [("G1", "Orcs"); ("G2", "")] "G1").
  - reflexivity.
  - repeat constructor.
Defined.

(** C4, as stated, fails: in the sequence below the entry named [A] is the
    first entry with the identifier [G1] and the entry named [B] follows it,
    yet the name of the entry before them closes its literal and opens an
    arm for [G1]; the emitted text is that of four plain entries and the
    generated function returns [Some("C")] for [G1]. *)
Lemma injected_arm_precedes_first_occurrence :
  as_string_function "squad" [("G0", injected_name); ("G1", "A"); ("G1", "B")]
  = as_string_function "squad" [("G0", "Z"); ("G1", "C"); ("G1", "A"); ("G1", "B")]
  ∧ generated_lookup "squad" [("G0", injected_name); ("G1", "A"); ("G1", "B")] "G1"
    = Some (Some "C")
  ∧ generated_lookup "squad" [("G0", injected_name); ("G1", "A"); ("G1", "B")] "G1"
    ≠ Some (Some "A").
Proof. repeat split; try reflexivity. discriminate. Qed.

(** C4 (amended): arms follow the order of the input sequence.  When the
    category is an identifier, no identifier or name of a named entry holds
    a double quote, a backslash or a carriage return, the first named entry
    with a given identifier carries the name [a] and a later entry with the
    same identifier carries [b], the generated function returns [Some a]
    for that identifier. *)
Theorem first_occurrence_wins (type guid a b : string)
    (before between after : list (string * string)) :
  is_identifier type = true →
  a ≠ "" →
  (∀ name, (guid, name) ∈ before → name = "") →
  let entries := before ++ (guid, a) :: between ++ (guid, b) :: after in
  Forall plain_entry (rendered entries) →
  as_string_function type entries
  = prologue type
    +:+ arms_text (rendered before)
    +:+ ("        " +:+ dq +:+ guid +:+ dq +:+ " => Some(" +:+ dq +:+ a +:+ dq
         +:+ ")," +:+ nl)
    +:+ arms_text (rendered (between ++ (guid, b) :: after))
    +:+ catch_all +:+ closing
  ∧ generated_lookup type entries guid = Some (Some a).
Proof.
  intros Htype Ha Hbefore entries Hplain. split.
  - unfold entries.
    rewrite as_string_function_spec, rendered_app, rendered_cons_named by done.
    rewrite arms_text_app. simpl arms_text. fold (arm guid a).
    by rewrite !append_assoc.
  - rewrite (generated_lookup_plain _ _ _ Htype Hplain). unfold entries.
    rewrite rendered_app, rendered_cons_named, eval_match_app by done.
    apply eval_rendered_None in Hbefore. rewrite Hbefore.
    simpl. by rewrite String.eqb_refl.
Qed.

Lemma first_occurrence_wins_witness :
  generated_lookup "squad" [("G0", "Z"); ("G1", "A"); ("G1", "B")] "G1"
  = Some (Some "A").
Proof.
  apply (first_occurrence_wins "squad" "G1" "A" "B" [("G0", "Z")] [] []).
  - reflexivity.
  - discriminate.
  - intros name Hin. apply list_elem_of_singleton in Hin. discriminate.
  - repeat constructor.
Defined.

(** * Unnamed entries *)

(** C3, as stated, fails: the first record resolves to the empty name and its
    entry is skipped by the emitter, yet an arm is rendered for its
    identifier, from the second record, and the lookup of that identifier
    does not reach the catch-all. *)
Lemma unnamed_entry_identifier_still_matched :
  extract two_records_one_guid
  = Ok {| squads := []; companions := [("G1", ""); ("G1", "Hero")] |}
  ∧ arms_loop "" [("G1", ""); ("G1", "Hero")]
    = "        " +:+ dq +:+ "G1" +:+ dq +:+ " => Some(" +:+ dq +:+ "Hero" +:+ dq
      +:+ ")," +:+ nl
  ∧ generated_lookup "companion" [("G1", ""); ("G1", "Hero")] "G1"
    = Some (Some "Hero")
  ∧ generated_lookup "companion" [("G1", ""); ("G1", "Hero")] "G1" ≠ Some None.
Proof. repeat split; try (vm_compute; reflexivity). discriminate. Qed.

(** C3 (amended): whenever a rule strips a name down to the empty string,
    the entry (identifier, empty name) is still appended to the rule's
    list; the emitter skips every entry whose name is empty, so the emitted
    text is the one obtained without that entry; and, when the category is an
    identifier and no identifier or name of a named entry holds a double
    quote, a backslash or a carriage return, the lookup of an identifier
    falls through to the catch-all exactly when every entry with that
    identifier has the empty name. *)
Theorem unnamed_entries_skipped (name type guid category : string) (st : lists)
    (entries : list (string * string)) :
  let stripped :=
    if Py.endswith name "_Companion" then Py.slice_to_neg 10 name else name in
  (Py.endswith name "_Companion" = true → stripped = "" →
   classify name type guid st
   = {| squads := squads st; companions := companions st ++ [(guid, "")] |})
  ∧ (Py.startswith stripped "AnimalCompanionUnit" = true →
     Py.slice_from 19 stripped = "" →
     classify name type guid st
     = {| squads := squads st;
          companions :=
            companions st
            ++ (if Py.endswith name "_Companion" then [(guid, stripped)] else [])
            ++ [(guid, "")] |})
  ∧ (Py.startswith (after_strips name) "Army" = true → type = BlueprintUnit →
     Py.slice_from 4 (after_strips name) = "" →
     squads (classify name type guid st) = squads st ++ [(guid, "")])
  ∧ (∀ before after,
       as_string_function category (before ++ (guid, "") :: after)
       = as_string_function category (before ++ after))
  ∧ (is_identifier category = true →
     Forall plain_entry (rendered entries) →
     (generated_lookup category entries guid = Some None
      ↔ ∀ n, (guid, n) ∈ entries → n = "")).
Proof.
  intros stripped. repeat split.
  - intros Hsuffix Hempty. unfold stripped in Hempty. rewrite Hsuffix in Hempty.
    unfold classify. by rewrite Hsuffix, Hempty.
  - intros Hprefix Hempty. unfold classify. fold stripped.
    destruct (Py.endswith name "_Companion");
      fold stripped; rewrite Hprefix, Hempty.
    + rewrite app_assoc. reflexivity.
    + reflexivity.
  - intros Harmy -> Hempty. rewrite classify_squads, Harmy, Hempty.
    by rewrite String.eqb_refl.
  - intros before after.
    by rewrite !as_string_function_spec, !rendered_app, rendered_cons_empty.
  - intros Hlookup. rewrite generated_lookup_plain in Hlookup by done.
    apply eval_rendered_None. congruence.
  - intros Hunnamed. rewrite generated_lookup_plain by done.
    f_equal. by apply eval_rendered_None.
Qed.

Lemma unnamed_entries_skipped_witness :
  classify "AnimalCompanionUnit_Companion" "X" "G1" no_entries
  = {| squads := [];
       companions := [("G1", "AnimalCompanionUnit"); ("G1", "")] |}
  ∧ squads (classify "Army_Companion" BlueprintUnit "G2" no_entries)
    = [("G2", "")]
  ∧ generated_lookup "companion" [("G1", "AnimalCompanionUnit"); ("G2", "")] "G2"
    = Some None.
Proof.
  destruct (unnamed_entries_skipped "AnimalCompanionUnit_Companion" "X" "G2"
              "companion" no_entries
              [("G1", "AnimalCompanionUnit"); ("G2", "")])
    as (_ & _ & _ & _ & Hlookup).
  destruct (unnamed_entries_skipped "AnimalCompanionUnit_Companion" "X" "G1"
              "companion" no_entries []) as (_ & Hanimal & _).
  destruct (unnamed_entries_skipped "Army_Companion" BlueprintUnit "G2"
              "companion" no_entries []) as (_ & _ & Harmy & _).
  split; [| split].
  - apply Hanimal; reflexivity.
  - apply Harmy; reflexivity.
  - assert (Forall plain_entry
              (rendered [("G1", "AnimalCompanionUnit"); ("G2", "")])) as Hplain
      by repeat constructor.
    destruct (Hlookup eq_refl Hplain) as [_ Hback]. apply Hback.
    intros n Hin. apply elem_of_cons in Hin as [Hin|Hin]; [discriminate |].
    apply list_elem_of_singleton in Hin. congruence.
Defined.

(** * Identifiers *)

(** C2, as stated, fails: the identifier is copied from the record's [Guid]
    without any test, so a record whose [Guid] is the empty string yields an
    entry with the empty identifier. *)
Lemma empty_identifier_appended :
  extract record_without_guid_text
  = Ok {| squads := []; companions := [("", "Hero")] |}.
Proof. vm_compute. reflexivity. Qed.

(** C2 (amended): every entry of squads and of companions is one of the
    entries that some input record yields, and its identifier is the [Guid]
    of that very record, unchanged; so the identifier is empty exactly when
    that record's [Guid] is the empty string. *)
Theorem identifiers_are_record_guids
    (data : gmap string (list (gmap string string)))
    (entries : list (gmap string string)) (st : lists) (x : string * string) :
  data !! "Entries" = Some entries →
  extract data = Ok st →
  x ∈ squads st ∨ x ∈ companions st →
  ∃ entry name type,
    entry ∈ entries
    ∧ entry !! "Name" = Some name
    ∧ entry !! "TypeFullName" = Some type
    ∧ entry !! "Guid" = Some x.1
    ∧ (x ∈ squads (classify name type x.1 no_entries)
       ∨ x ∈ companions (classify name type x.1 no_entries))
    ∧ (x.1 = "" ↔ entry !! "Guid" = Some "").
Proof.
  intros Hdata Hextract Hx. unfold extract in Hextract.
  rewrite (getitem_Some _ _ _ Hdata) in Hextract. simpl in Hextract.
  destruct (for_entries_own_elem _ _ _ _ Hextract Hx)
    as [[Hnil|Hnil]|(entry & name & type & Hin & Hn & Ht & Hg & Hown)];
    [by apply elem_of_nil in Hnil | by apply elem_of_nil in Hnil |].
  exists entry, name, type. repeat split; try done.
  - intros Hempty. by rewrite Hg, Hempty.
  - intros Hempty. congruence.
Qed.

Lemma identifiers_are_record_guids_witness :
  ∃ entry name type,
    entry ∈ [ ({[ "Name" := "Hero_Companion"; "TypeFullName" := "X";
                  "Guid" := "G1" ]} : gmap string string);
              {[ "Name" := "ArmyOrcs"; "TypeFullName" := BlueprintUnit;
                 "Guid" := "G2" ]} ]
    ∧ entry !! "Name" = Some name
    ∧ entry !! "TypeFullName" = Some type
    ∧ entry !! "Guid" = Some "G2"
    ∧ (("G2", "Orcs") ∈ squads (classify name type "G2" no_entries)
       ∨ ("G2", "Orcs") ∈ companions (classify name type "G2" no_entries))
    ∧ ("G2" = "" ↔ entry !! "Guid" = Some "").
Proof.
  apply (identifiers_are_record_guids
           {[ "Entries" := [ {[ "Name" := "Hero_Companion"; "TypeFullName" := "X";
                                "Guid" := "G1" ]};
                             {[ "Name" := "ArmyOrcs";
                                "TypeFullName" := BlueprintUnit;
                                "Guid" := "G2" ]} ] ]}
           _ {| squads := [("G2", "Orcs")]; companions := [("G1", "Hero")] |}
           ("G2", "Orcs")).
  - vm_compute. reflexivity.
  - vm_compute. reflexivity.
  - left. apply list_elem_of_here.
Defined.

(** * Malformed records *)

(** C6: when some record of [Entries] lacks [Name], [TypeFullName] or
    [Guid], the run ends with the [KeyError] of a required field and the file
    system is what it was: nothing is written to [src/data/names.rs]. *)
Theorem missing_field_aborts
    (data : gmap string (list (gmap string string)))
    (entries : list (gmap string string)) (entry : gmap string string)
    (fs : gmap string string) :
  data !! "Entries" = Some entries →
  entry ∈ entries →
  entry !! "Name" = None ∨ entry !! "TypeFullName" = None
    ∨ entry !! "Guid" = None →
  ∃ key, key ∈ required
         ∧ extract data = Raise (KeyError key)
         ∧ main data fs = (Raise (KeyError key), fs).
Proof.
  intros Hdata Hin Hmissing.
  assert (∃ key, key ∈ required ∧ entry !! key = None) as Hkey.
  { destruct Hmissing as [H|[H|H]];
      [exists "Name" | exists "TypeFullName" | exists "Guid"];
      (split; [in_required | done]). }
  destruct (for_entries_Raise entries entry no_entries Hin Hkey)
    as (key & Hreq & Hraise).
  exists key. split; [done |].
  assert (extract data = Raise (KeyError key)) as Hextract.
  { unfold extract. rewrite (getitem_Some _ _ _ Hdata). exact Hraise. }
  split; [done |]. unfold main. by rewrite Hextract.
Qed.

Lemma missing_field_aborts_witness :
  ∃ key, key ∈ required
         ∧ extract second_record_lacks_guid = Raise (KeyError key)
         ∧ main second_record_lacks_guid ∅ = (Raise (KeyError key), ∅).
Proof.
  apply (missing_field_aborts second_record_lacks_guid
           [ {[ "Name" := "Hero_Companion"; "TypeFullName" := "X"; "Guid" := "G1" ]};
             {[ "Name" := "ArmyOrcs"; "TypeFullName" := BlueprintUnit ]} ]
           {[ "Name" := "ArmyOrcs"; "TypeFullName" := BlueprintUnit ]} ∅).
  - vm_compute. reflexivity.
  - apply list_elem_of_further, list_elem_of_here.
  - right. right. vm_compute. reflexivity.
Defined.

(** * Sanity checks of the model on whole runs *)

Example main_raises_on_second_record :
  main second_record_lacks_guid ∅ = (Raise (KeyError "Guid"), ∅).
Proof. vm_compute. reflexivity. Qed.

Example sample_document_text :
  extract sample_document
  = Ok {| squads := [("G2", "GoblinSquad")];
          companions := [("G1", "GoblinWarrior")] |}
  ∧ generated {| squads := [("G2", "GoblinSquad")];
                 companions := [("G1", "GoblinWarrior")] |}
    = "use log::info;" +:+ nl +:+ nl
      +:+ prologue "squad" +:+ arm "G2" "GoblinSquad"
      +:+ catch_all +:+ closing
      +:+ nl +:+ nl
      +:+ prologue "companion" +:+ arm "G1" "GoblinWarrior"
      +:+ catch_all +:+ closing
      +:+ nl.
Proof. repeat split; vm_compute; reflexivity. Qed.

(** * Further properties of the extraction *)
(** X1: the loop only appends.  Run from any accumulated lists, it returns
    those lists followed by what it produces from empty lists, and it raises
    the same exception in the same cases: neither the outcome nor the added
    entries depend on what was accumulated before. *)
Theorem extraction_only_appends (entries : list (gmap string string))
    (st : lists) :
  for_entries entries st
  = match for_entries entries no_entries with
    | Ok added => Ok (lists_app st added)
    | Raise e => Raise e
    end.
Proof.
  rewrite <- (for_entries_frame entries st no_entries).
  by rewrite lists_app_no_entries.
Qed.

(** X2: extraction follows the order of the input.  The lists obtained from
    two batches of records in sequence are the lists of the first batch
    followed by those of the second; an exception of the first batch wins
    over one of the second. *)
Theorem extraction_of_concatenation (entries1 entries2 : list (gmap string string)) :
  for_entries (entries1 ++ entries2) no_entries
  = match for_entries entries1 no_entries with
    | Ok first =>
        match for_entries entries2 no_entries with
        | Ok second => Ok (lists_app first second)
        | Raise e => Raise e
        end
    | Raise e => Raise e
    end.
Proof.
  rewrite for_entries_app.
  destruct (for_entries entries1 no_entries) as [first|e]; [| done].
  rewrite <- (lists_app_no_entries first) at 1.
  apply for_entries_frame.
Qed.

Lemma classify_lengths (name type guid : string) (st : lists) :
  let st' := classify name type guid st in
  length (squads st) ≤ length (squads st') ≤ length (squads st) + 1
  ∧ length (companions st) ≤ length (companions st')
  ∧ length (squads st') + length (companions st')
    ≤ length (squads st) + length (companions st) + 3.
Proof.
  unfold classify.
  destruct (Py.endswith name "_Companion");
    destruct (Py.startswith _ "AnimalCompanionUnit");
    (match goal with
     | |- context [String.eqb ?n "AzataDragonUnit"] =>
         destruct (String.eqb_spec n "AzataDragonUnit") as [Hazata|_];
         [ rewrite Hazata;
           change (Py.startswith "AzataDragonUnit" "Army") with false;
           cbn [andb]
         | destruct (_ && _) ]
     end);
    cbn [squads companions squads_append companions_append];
    rewrite ?length_app; simpl; lia.
Qed.

(** X3: a successful loop over n records leaves the accumulated entries in
    place and appends at most n entries to squads and at most 3n entries to
    squads and companions together.  Three entries for one record is
    reached: [AnimalCompanionUnitAzataDragonUnit_Companion] yields three
    companions entries, whatever its type. *)
Theorem entries_per_record_bound :
  (∀ (entries : list (gmap string string)) (st st' : lists),
     for_entries entries st = Ok st' →
     ∃ more_squads more_companions,
       squads st' = squads st ++ more_squads
       ∧ companions st' = companions st ++ more_companions
       ∧ length more_squads ≤ length entries
       ∧ length more_squads + length more_companions ≤ 3 * length entries)
  ∧ (∀ (type guid : string) (st : lists),
       classify "AnimalCompanionUnitAzataDragonUnit_Companion" type guid st
       = {| squads := squads st;
            companions :=
              companions st
              ++ [(guid, "AnimalCompanionUnitAzataDragonUnit");
                  (guid, "AzataDragonUnit"); (guid, "Aivu")] |}).
Proof.
  split.
  - intros entries st st' Hloop.
    rewrite <- (lists_app_no_entries st), for_entries_frame in Hloop.
    destruct (for_entries entries no_entries) as [added|] eqn:Hadded; [| done].
    injection Hloop as <-.
    exists (squads added), (companions added).
    assert (∀ a b, for_entries entries a = Ok b →
            length (squads b) ≤ length (squads a) + length entries
            ∧ length (squads b) + length (companions b)
              ≤ length (squads a) + length (companions a) + 3 * length entries)
      as Hbound.
    { clear. induction entries as [|entry rest IH]; intros a b; simpl.
      - intros [= <-]. lia.
      - destruct (loop_body entry a) as [a1|] eqn:Hbody; [| done].
        apply loop_body_Ok_inv in Hbody as (name & type & guid & _ & _ & _ & ->).
        intros Hrest. specialize (IH _ _ Hrest).
        pose proof (classify_lengths name type guid a). simpl in *. lia. }
    specialize (Hbound _ _ Hadded). simpl in Hbound.
    repeat split; [lia | lia].
  - intros type guid st. unfold classify. cbn.
    unfold companions_append. cbn [squads companions].
    by rewrite <- !app_assoc.
Qed.

Lemma entries_per_record_bound_witness :
  ∃ more_squads more_companions,
    squads {| squads := [("G0", "Orcs")];
              companions := [("G1", "AnimalCompanionUnitAzataDragonUnit");
                             ("G1", "AzataDragonUnit"); ("G1", "Aivu")] |}
    = [("G0", "Orcs")] ++ more_squads
    ∧ companions {| squads := [("G0", "Orcs")];
                    companions := [("G1", "AnimalCompanionUnitAzataDragonUnit");
                                   ("G1", "AzataDragonUnit"); ("G1", "Aivu")] |}
      = [] ++ more_companions
    ∧ length more_squads ≤ 1
    ∧ length more_squads + length more_companions ≤ 3 * 1.
Proof.
  destruct entries_per_record_bound as [Hbound _].
  apply (Hbound
           [ {[ "Name" := "AnimalCompanionUnitAzataDragonUnit_Companion";
                "TypeFullName" := "X"; "Guid" := "G1" ]} ]
           {| squads := [("G0", "Orcs")]; companions := [] |}).
  vm_compute. reflexivity.
Defined.

(** * Where the entries come from *)







Lemma classify_companions_type (name type type' guid : string) (st st' : lists) :
  companions st = companions st' →
  companions (classify name type guid st)
  = companions (classify name type' guid st').
Proof.
  intros Hsame. unfold classify.
  destruct (Py.endswith name "_Companion");
    destruct (Py.startswith _ "AnimalCompanionUnit");
    destruct (String.eqb _ "AzataDragonUnit");
    destruct (_ && String.eqb type _); destruct (_ && String.eqb type' _);
    cbn [squads companions squads_append companions_append];
    by rewrite Hsame.
Qed.

(** X6: [TypeFullName] plays no part in the companions list.  Two inputs
    whose records agree, one by one, on [Name] and [Guid] give the same
    companions, whatever their types. *)
Theorem companions_ignore_type (entries entries' : list (gmap string string))
    (st st' : lists) :
  Forall2 (λ e e', e !! "Name" = e' !! "Name" ∧ e !! "Guid" = e' !! "Guid")
    entries entries' →
  for_entries entries no_entries = Ok st →
  for_entries entries' no_entries = Ok st' →
  companions st = companions st'.
Proof.
  intros Hagree.
  assert (∀ a b, companions a = companions b →
          for_entries entries a = Ok st → for_entries entries' b = Ok st' →
          companions st = companions st') as Hloop.
  { induction Hagree as [|e e' rest rest' [Hname Hguid] _ IH]; intros a b Hab; simpl.
    - by intros [= <-] [= <-].
    - destruct (loop_body e a) as [a1|] eqn:Ha; [| done].
      destruct (loop_body e' b) as [b1|] eqn:Hb; [| done].
      apply loop_body_Ok_inv in Ha as (n & t & g & Hn & _ & Hg & ->).
      apply loop_body_Ok_inv in Hb as (n' & t' & g' & Hn' & _ & Hg' & ->).
      assert (n = n') as <- by congruence.
      assert (g = g') as <- by congruence.
      apply IH. by apply classify_companions_type. }
  by apply Hloop.
Qed.

Lemma companions_ignore_type_witness :
  companions {| squads := [("G2", "Orcs")]; companions := [("G2", "ArmyOrcs")] |}
  = companions {| squads := []; companions := [("G2", "ArmyOrcs")] |}.
Proof.
  apply (companions_ignore_type
           [ {[ "Name" := "ArmyOrcs_Companion"; "TypeFullName" := BlueprintUnit;
                "Guid" := "G2" ]} ]
           [ {[ "Name" := "ArmyOrcs_Companion"; "TypeFullName" := "X";
                "Guid" := "G2" ]} ]).
  - repeat constructor.
  - vm_compute. reflexivity.
  - vm_compute. reflexivity.
Defined.

(** X7: a record whose [Name] neither ends with [_Companion] nor begins with
    [AnimalCompanionUnit] adds at most one entry: [Aivu] to companions when
    the name is [AzataDragonUnit], the name without its first 4 characters to
    squads when it begins with [Army] and the type is the unit blueprint, and
    nothing otherwise.  Such a record never lands in both lists. *)
Theorem plain_name_adds_at_most_one_entry (name type guid : string) (st : lists) :
  Py.endswith name "_Companion" = false →
  Py.startswith name "AnimalCompanionUnit" = false →
  (name = "AzataDragonUnit"
   ∧ classify name type guid st
     = {| squads := squads st; companions := companions st ++ [(guid, "Aivu")] |})
  ∨ (Py.startswith name "Army" = true ∧ type = BlueprintUnit
     ∧ classify name type guid st
       = {| squads := squads st ++ [(guid, Py.slice_from 4 name)];
            companions := companions st |})
  ∨ (name ≠ "AzataDragonUnit"
     ∧ ¬ (Py.startswith name "Army" = true ∧ type = BlueprintUnit)
     ∧ classify name type guid st = st).
Proof.
  intros Hsuffix Hprefix. unfold classify. rewrite Hsuffix, Hprefix.
  destruct (String.eqb_spec name "AzataDragonUnit") as [->|Hazata].
  - left. by split.
  - right.
    destruct (Py.startswith name "Army") eqn:Harmy;
      destruct (String.eqb_spec type BlueprintUnit) as [Htype|Htype];
      cbn [andb]; [by left | right ..]; (split; [done |]);
      (split; [by intros [? ?] | done]).
Qed.

Lemma plain_name_adds_at_most_one_entry_witness :
  classify "AzataDragonUnit" "X" "G1" no_entries
  = {| squads := []; companions := [("G1", "Aivu")] |}
  ∧ classify "ArmyOrcs" BlueprintUnit "G2" no_entries
    = {| squads := [("G2", "Orcs")]; companions := [] |}
  ∧ classify "Seelah" "X" "G3" no_entries = no_entries.
Proof.
  split; [| split].
  - destruct (plain_name_adds_at_most_one_entry "AzataDragonUnit" "X" "G1"
                no_entries)
      as [[_ Hsame]|[(Harmy & _)|(Hname & _)]];
      [reflexivity | reflexivity | exact Hsame | discriminate | by destruct Hname].
  - destruct (plain_name_adds_at_most_one_entry "ArmyOrcs" BlueprintUnit "G2"
                no_entries)
      as [[Hname _]|[(_ & _ & Hsame)|(_ & Hnot & _)]];
      [reflexivity | reflexivity | discriminate | exact Hsame
      | by destruct Hnot].
  - destruct (plain_name_adds_at_most_one_entry "Seelah" "X" "G3" no_entries)
      as [[Hname _]|[(Harmy & _)|(_ & _ & Hsame)]];
      [reflexivity | reflexivity | discriminate | discriminate | exact Hsame].
Defined.

(** * Outcomes of a run *)

Section run_outcomes.

Implicit Types (entry : gmap string string) (entries : list (gmap string string))
  (st : lists).

Lemma loop_body_complete entry st :
  complete entry → ∃ st', loop_body entry st = Ok st'.
Proof.
  intros Hcomplete.
  destruct (Hcomplete "Name") as [name Hn]; [in_required |].
  destruct (Hcomplete "TypeFullName") as [type Ht]; [in_required |].
  destruct (Hcomplete "Guid") as [guid Hg]; [in_required |].
  exists (classify name type guid st). by apply loop_body_Ok.
Qed.

Lemma loop_body_Ok_complete entry st st' :
  loop_body entry st = Ok st' → complete entry.
Proof.
  intros (name & type & guid & Hn & Ht & Hg & _)%loop_body_Ok_inv key Hkey.
  unfold required in Hkey.
  repeat (apply elem_of_cons in Hkey as [->|Hkey]; [by eexists |]).
  by apply elem_of_nil in Hkey.
Qed.

Lemma for_entries_complete entries st :
  Forall complete entries → ∃ st', for_entries entries st = Ok st'.
Proof.
  intros Hall. revert st.
  induction Hall as [|entry rest Hentry _ IH]; intros st; [by exists st |].
  simpl. destruct (loop_body_complete entry st Hentry) as [st1 ->].
  apply IH.
Qed.

Lemma for_entries_Ok_complete entries st st' :
  for_entries entries st = Ok st' → Forall complete entries.
Proof.
  revert st; induction entries as [|entry rest IH]; intros st; simpl;
    [by constructor |].
  destruct (loop_body entry st) as [st1|] eqn:Hbody; [| done].
  intros Hrest. constructor; [by eapply loop_body_Ok_complete | by eapply IH].
Qed.

Lemma loop_body_Raise_inv entry st key :
  loop_body entry st = Raise (KeyError key) →
  key ∈ required ∧ entry !! key = None.
Proof.
  unfold loop_body, getitem.
  destruct (entry !! "Name") eqn:Hn;
    [| intros [= <-]; split; [in_required | done]].
  destruct (entry !! "TypeFullName") eqn:Ht;
    [| intros [= <-]; split; [in_required | done]].
  destruct (entry !! "Guid") eqn:Hg;
    [done | intros [= <-]; split; [in_required | done]].
Qed.

Lemma for_entries_Raise_inv entries st key :
  for_entries entries st = Raise (KeyError key) →
  key ∈ required ∧ ¬ Forall complete entries.
Proof.
  revert st; induction entries as [|entry rest IH]; intros st; simpl; [done |].
  destruct (loop_body entry st) as [st1|[key']] eqn:Hbody.
  - intros Hrest. destruct (IH _ Hrest) as [Hkey Hnot].
    split; [done |]. intros Hall. apply Hnot. by inversion Hall.
  - intros [= ->]. apply loop_body_Raise_inv in Hbody as [Hkey Hnone].
    split; [done |]. intros Hall. inversion Hall as [|? ? Hentry _]; subst.
    destruct (Hentry key Hkey) as [v Hv]. congruence.
Qed.

End run_outcomes.

(** X8: the first block, from the parsed document on, succeeds exactly when
    the document has [Entries] and every record has [Name], [TypeFullName]
    and [Guid]; otherwise it raises the [KeyError] of [Entries] or of a
    required field. *)
Theorem extract_outcome (data : gmap string (list (gmap string string))) :
  (well_formed data ∧ ∃ st, extract data = Ok st)
  ∨ (¬ well_formed data
     ∧ ∃ key, (key = "Entries" ∨ key ∈ required)
              ∧ extract data = Raise (KeyError key)).
Proof.
  unfold extract, well_formed, getitem.
  destruct (data !! "Entries") as [entries|] eqn:Hdata; simpl.
  - destruct (for_entries entries _) as [st|[key]] eqn:Hloop.
    + left. split; [| by exists st]. exists entries.
      split; [done | by eapply for_entries_Ok_complete].
    + right. apply for_entries_Raise_inv in Hloop as [Hkey Hnot].
      split; [| exists key; by auto].
      intros (entries' & [= <-] & Hall). by apply Hnot.
  - right. split; [by intros (? & ? & _) |]. exists "Entries". by auto.
Qed.

(** X9: the loop stops at the first record that lacks a field, and the
    exception names the first field, in the order [Name], [TypeFullName],
    [Guid], that this record lacks.  The records after it play no part. *)
Theorem first_malformed_record_decides
    (before after : list (gmap string string)) (entry : gmap string string)
    (st : lists) :
  Forall complete before →
  (entry !! "Name" = None →
   for_entries (before ++ entry :: after) st = Raise (KeyError "Name"))
  ∧ (is_Some (entry !! "Name") → entry !! "TypeFullName" = None →
     for_entries (before ++ entry :: after) st = Raise (KeyError "TypeFullName"))
  ∧ (is_Some (entry !! "Name") → is_Some (entry !! "TypeFullName") →
     entry !! "Guid" = None →
     for_entries (before ++ entry :: after) st = Raise (KeyError "Guid")).
Proof.
  intros Hbefore. rewrite for_entries_app.
  destruct (for_entries_complete before st Hbefore) as [st1 ->].
  simpl. unfold loop_body, getitem. repeat split.
  - by intros ->.
  - by intros [name ->] ->.
  - by intros [name ->] [type ->] ->.
Qed.

Lemma first_malformed_record_decides_witness :
  for_entries
    ([ {[ "Name" := "Hero_Companion"; "TypeFullName" := "X"; "Guid" := "G1" ]} ]
     ++ {[ "Name" := "ArmyOrcs" ]} :: [ ∅ ])
    no_entries
  = Raise (KeyError "TypeFullName").
Proof.
  destruct (first_malformed_record_decides
              [ {[ "Name" := "Hero_Companion"; "TypeFullName" := "X";
                   "Guid" := "G1" ]} ]
              [ ∅ ] {[ "Name" := "ArmyOrcs" ]} no_entries)
    as (_ & Htype & _).
  - constructor; [| constructor]. intros key Hkey. unfold required in Hkey.
    repeat (apply elem_of_cons in Hkey as [->|Hkey];
            [vm_compute; by eexists |]).
    by apply elem_of_nil in Hkey.
  - apply Htype; [vm_compute; by eexists | vm_compute; reflexivity].
Defined.

(** * Further properties of the emitter *)

Section emitter_laws.

Implicit Types (entries arms : list (string * string)) (s : string).

Lemma append_cancel_l (a b c : string) : a +:+ b = a +:+ c → b = c.
Proof.
  induction a as [|x a IH]; [done |].
  rewrite !append_cons. intros [= H]. by apply IH.
Qed.

Lemma append_not_empty (a b : string) : a ≠ "" → a +:+ b ≠ "".
Proof. destruct a; [done |]. by rewrite append_cons. Qed.

Lemma arms_text_empty arms : arms_text arms = "" → arms = [].
Proof. destruct arms as [|[guid name] rest]; [done |]. discriminate. Qed.

Lemma rendered_empty_iff entries :
  rendered entries = [] ↔ Forall (λ e, e.2 = "") entries.
Proof.
  induction entries as [|[guid name] rest IH].
  - split; [by constructor | done].
  - destruct (decide (name = "")) as [->|Hname].
    + rewrite rendered_cons_empty, IH. split.
      * intros Hrest. by constructor.
      * intros Hall. by inversion Hall.
    + rewrite rendered_cons_named by done. split; [done |].
      intros Hall. by inversion Hall.
Qed.

End emitter_laws.

(** X10: because nothing is escaped, the emitter cannot tell data from
    syntax.  One entry whose name closes its own string literal, ends the
    arm and opens another arm renders exactly the text of two entries. *)
Theorem unescaped_name_renders_as_two_arms (type guid1 name1 guid2 name2 : string) :
  name1 ≠ "" →
  name2 ≠ "" →
  as_string_function type
    [(guid1, name1 +:+ dq +:+ ")," +:+ nl
             +:+ "        " +:+ dq +:+ guid2 +:+ dq +:+ " => Some(" +:+ dq
             +:+ name2)]
  = as_string_function type [(guid1, name1); (guid2, name2)].
Proof.
  intros Hname1 Hname2. rewrite !as_string_function_spec.
  rewrite !rendered_cons_named by (done || by apply append_not_empty).
  f_equal. f_equal. cbn [arms_text rendered]. unfold arm.
  by rewrite !append_assoc.
Qed.

Lemma unescaped_name_renders_as_two_arms_witness :
  as_string_function "companion"
    [("G1", "Wolf" +:+ dq +:+ ")," +:+ nl
            +:+ "        " +:+ dq +:+ "G2" +:+ dq +:+ " => Some(" +:+ dq
            +:+ "Bear")]
  = as_string_function "companion" [("G1", "Wolf"); ("G2", "Bear")].
Proof.
  apply (unescaped_name_renders_as_two_arms "companion" "G1" "Wolf" "G2" "Bear");
    discriminate.
Defined.

(** X11: the generated function has no arm besides the catch-all exactly
    when every entry has the empty name; in particular a list of unnamed
    entries renders the same text as the empty list. *)
Theorem table_is_empty_iff (type : string) (entries : list (string * string)) :
  as_string_function type entries = as_string_function type []
  ↔ Forall (λ e, e.2 = "") entries.
Proof.
  rewrite <- rendered_empty_iff, !as_string_function_spec. split.
  - intros Htext. apply append_cancel_l in Htext.
    apply arms_text_empty.
    assert (String.length (arms_text (rendered entries)) = 0) as Hlen.
    { apply (f_equal String.length) in Htext.
      rewrite !length_append in Htext. simpl in Htext. lia. }
    by destruct (arms_text (rendered entries)).
  - by intros ->.
Qed.
